(** * Multi-method dispatch on specs (lib/spack/spack/multimethod.py)

    A shallow embedding of [SpecMultiMethod] (the dispatch table) and of the
    [when] decorator, followed by the properties of dispatch, registration
    and decoration.

    Modelling conventions.
    - A Python function object is a [Method]: its [__name__] and its code.
      The code is a total function from the positional arguments (receiver
      first) and the keyword arguments to a [Result], either a raised
      exception or a returned object.  Functions are truthy and they are
      never [None], so an optional function is an [option Method] whose
      [None] is Python's [None].
    - [method_map] is a dict keyed by specs: a [gmap].  The iteration order
      of the dict is not used by any property below.
    - Dispatch tables are mutable objects that the class body and the
      decorator share: they live in a [Heap] and are named by a [Ref].
    - A call reports, next to its result, the list of implementations it
      invoked, with the arguments each one received. *)

From stdpp Require Import base option list gmap strings.

Module Multimethod.

(** Specs and arbitrary Python objects are opaque.  The module reaches them
    only through the operations of this interface, which other modules of
    the package provide. *)
Class Collaborators (Spec Obj : Type) : Type := {
  (** [s.satisfies(spec)] from spack.spec. *)
  satisfies : Spec -> Spec -> bool;
  (** [str(s)] for a spec. *)
  str : Spec -> string;
  (** [obj.spec]: [None] when the object has no such attribute. *)
  spec_attr : Obj -> option Spec;
  (** [type(obj).__name__]. *)
  type_name : Obj -> string;
  (** [parse_anonymous_spec(spec_like, pkg_name)] from spack.spec. *)
  parse_anonymous_spec : string -> string -> Spec
}.

Section Dispatch.

Context {Spec : Type} `{Countable Spec} {Obj : Type} `{!Collaborators Spec Obj}.

Definition Kwargs : Type := list (string * Obj).

(** The exceptions that the module raises or lets through. *)
Inductive Exn : Type :=
| NoSuchMethodError (message : string)
| AmbiguousMethodError (message : string)
| AssertionError
| AttributeError (message : string)
| TypeError (message : string)
| KeyError
| SystemError (message : string)
| OtherError (payload : Obj).

Definition Result : Type := Exn + Obj.

Record Method : Type := mkMethod {
  fn_name : string;
  fn_code : list Obj -> Kwargs -> Result
}.

(** One invocation of an implementation: which one, and what it got. *)
Definition Invocation : Type := (Method * list Obj * Kwargs)%type.

(** [method(package_self, *args, **kwargs)] for a function object. *)
Definition invoke (method : Method) (pos : list Obj) (kwargs : Kwargs)
  : list Invocation * Result :=
  ([(method, pos, kwargs)], fn_code method pos kwargs).

(** The instance attributes of a [SpecMultiMethod].  [__name__] is the
    attribute that [functools.update_wrapper] copies from a function;
    [None] there means that the instance has no such attribute
    ([hasattr(self, '__name__')] is false). *)
Record SpecMultiMethod : Type := mkSpecMultiMethod {
  method_map : gmap Spec Method;
  default : option Method;
  __name__ : option string
}.

(** [functools.update_wrapper(self, wrapped)]: of the attributes it
    copies, only [__name__] is read by this module. *)
Definition update_wrapper (self : SpecMultiMethod) (wrapped : Method)
  : SpecMultiMethod :=
  {| method_map := method_map self;
     default := default self;
     __name__ := Some (fn_name wrapped) |}.

(** [SpecMultiMethod.__init__(self, default=None)]. *)
Definition __init__ (default0 : option Method) : SpecMultiMethod :=
  let self := {| method_map := ∅; default := default0; __name__ := None |} in
  match default0 with
  | Some d => update_wrapper self d
  | None => self
  end.

(** [SpecMultiMethod.register(self, spec, method)]: the table after the
    call, and the exception when the assertion fails.  The dict is
    written before the names are compared. *)
Definition register (self : SpecMultiMethod) (spec : Spec) (method : Method)
  : SpecMultiMethod * option Exn :=
  let self := {| method_map := <[spec := method]> (method_map self);
                 default := default self;
                 __name__ := __name__ self |} in
  match __name__ self with
  | None => (update_wrapper self method, None)
  | Some n =>
      if String.eqb n (fn_name method) then (self, None)
      else (self, Some AssertionError)
  end.

(** [sep.join(parts)]. *)
Fixpoint join (sep : string) (parts : list string) : string :=
  match parts with
  | [] => EmptyString
  | [p] => p
  | p :: rest => p +:+ sep +:+ join sep rest
  end.

(** The message built by [NoSuchMethodError.__init__]. *)
Definition no_such_method_message (cls_name method_name : string)
    (spec : Spec) (possible_specs : list Spec) : string :=
  "Package " +:+ cls_name +:+ " does not support " +:+ method_name
    +:+ " called with " +:+ str spec +:+ ".  Options are: "
    +:+ join ", " (map str possible_specs).

(** The message built by [AmbiguousMethodError.__init__]. *)
Definition ambiguous_method_message (cls_name method_name : string)
    (spec : Spec) (matching_specs : list Spec) : string :=
  "Package " +:+ cls_name +:+ " has multiple versions of " +:+ method_name
    +:+ " that match " +:+ str spec +:+ ": "
    +:+ join "," (map str matching_specs).

(** [self.method_map.keys()], and iteration over the dict. *)
Definition keys (m : gmap Spec Method) : list Spec := (map_to_list m).*1.

(** The list comprehension of [__call__]:
    [[s for s in self.method_map if s.satisfies(spec)]]. *)
Definition matching_specs (self : SpecMultiMethod) (spec : Spec) : list Spec :=
  List.filter (fun s => satisfies s spec) (keys (method_map self)).

(** Raising: nothing was invoked. *)
Definition raise (e : Exn) : list Invocation * Result := ([], inl e).

(** [SpecMultiMethod.__call__(self, package_self, *args, **kwargs)].
    [pos] is the list of positional arguments of the call; its head is
    [package_self]. *)
Definition __call__ (self : SpecMultiMethod) (pos : list Obj) (kwargs : Kwargs)
  : list Invocation * Result :=
  match pos with
  | [] => raise (TypeError "__call__() takes at least 2 arguments (1 given)")
  | package_self :: args =>
      match spec_attr package_self with
      | None =>
          raise (AttributeError ("'" +:+ type_name package_self
                                   +:+ "' object has no attribute 'spec'"))
      | Some spec =>
          let matching := matching_specs self spec in
          let num_matches := length matching in
          if num_matches =? 0 then
            match default self with
            | None =>
                match __name__ self with
                | None =>
                    raise (AttributeError
                      "'SpecMultiMethod' object has no attribute '__name__'")
                | Some name =>
                    raise (NoSuchMethodError
                      (no_such_method_message (type_name package_self) name
                         spec (keys (method_map self))))
                end
            | Some method => invoke method (package_self :: args) kwargs
            end
          else if num_matches =? 1 then
            match matching !! 0 ≫= (fun s => method_map self !! s) with
            | None => raise KeyError
            | Some method => invoke method (package_self :: args) kwargs
            end
          else
            match __name__ self with
            | None =>
                raise (AttributeError
                  "'SpecMultiMethod' object has no attribute '__name__'")
            | Some name =>
                raise (AmbiguousMethodError
                  (ambiguous_method_message (type_name package_self) name
                     spec matching))
            end
      end
  end.

(** [functools.partial(func, *pargs)]: the partial object called with
    [fargs] and [kwargs] calls [func] on [pargs + fargs] and [kwargs]. *)
Definition partial {R : Type} (func : list Obj -> Kwargs -> R)
    (pargs : list Obj) : list Obj -> Kwargs -> R :=
  fun fargs kwargs => func (pargs ++ fargs) kwargs.

(** [SpecMultiMethod.__get__(self, obj, objtype)]. *)
Definition __get__ (self : SpecMultiMethod) (obj : Obj) (objtype : string)
  : list Obj -> Kwargs -> list Invocation * Result :=
  partial (__call__ self) [obj].

(** ** Shared tables, scopes and the decorator *)

(** A dispatch table is a mutable object: the heap holds the tables that
    were created, and a [Ref] is the identity of one of them. *)
Definition Ref : Type := nat.
Definition Heap : Type := list SpecMultiMethod.

(** What a name of a class body is bound to: a plain function, or a
    dispatch table ([type(v) == SpecMultiMethod]). *)
Inductive Value : Type :=
| VFunc (f : Method)
| VMulti (r : Ref).

Abbreviation Scope := (gmap string Value).

(** Code that reads and writes the heap and may raise.  What was written
    before an exception stays written. *)
Definition M (A : Type) : Type := Heap -> Heap * (Exn + A).

Definition ret {A : Type} (a : A) : M A := fun h => (h, inr a).

Definition bind {A B : Type} (c : M A) (k : A -> M B) : M B :=
  fun h =>
    match c h with
    | (h', inl e) => (h', inl e)
    | (h', inr a) => k a h'
    end.

Notation "x <- c ;; k" := (bind c (fun x => k))
  (at level 100, c at next level, right associativity).

(** [SpecMultiMethod(default)] as an expression: a new object. *)
Definition new (default0 : option Method) : M Ref :=
  fun h => (h ++ [__init__ default0], inr (length h)).

(** [table.register(spec, method)] on the object that [r] names.  A [Ref]
    outside the heap does not arise: every [Ref] comes from [new]. *)
Definition register_at (r : Ref) (spec : Spec) (method : Method) : M unit :=
  fun h =>
    match h !! r with
    | None => (h, inl (SystemError "no such object"))
    | Some self =>
        let '(self', failure) := register self spec method in
        (<[r := self']> h,
         match failure with Some e => inl e | None => inr tt end)
    end.

(** An instance of the decorator class [when]. *)
Record when : Type := mkWhen { spec : Spec }.

(** [when.__init__(self, spec)]; [pkg] is what
    [get_calling_package_name()] returns. *)
Definition when_init (spec_like : string) (pkg : string) : when :=
  {| spec := parse_anonymous_spec spec_like pkg |}.

(** The argument of [SpecMultiMethod(original_method)] when the name is not
    bound to a table: the function it is bound to, or [None]. *)
Definition original_default (original_method : option Value) : option Method :=
  match original_method with
  | Some (VFunc f) => Some f
  | _ => None
  end.

(** Modelled from the spec: [caller_locals()] of spack.util.lang is not
    in this file; it is the definition scope of the class body under
    construction, read with [get(name)], which gives [None] for a name
    that is not bound.  Here the scope is the argument [caller_locals].

    [when.__call__(self, method)]: returns the table to bind. *)
Definition when_call (self : when) (method : Method) (caller_locals : Scope)
  : M Ref :=
  let original_method := caller_locals !! fn_name method in
  original_method <-
    match original_method with
    | Some (VMulti r) => ret r
    | _ => new (original_default original_method)
    end ;;
  _ <- register_at original_method (spec self) method ;;
  ret original_method.

(** The statements of a class body that define methods: a plain [def],
    and a [def] under [@when(spec_like)].  Python binds the name of the
    function to the function, or to what the decorator returned. *)
Inductive Stmt : Type :=
| Def (method : Method)
| DefWhen (spec_like : string) (method : Method).

Definition exec_stmt (pkg : string) (st : Stmt) (locals : Scope) : M Scope :=
  match st with
  | Def method => ret (<[fn_name method := VFunc method]> locals)
  | DefWhen spec_like method =>
      table <- when_call (when_init spec_like pkg) method locals ;;
      ret (<[fn_name method := VMulti table]> locals)
  end.

Fixpoint exec_body (pkg : string) (body : list Stmt) (locals : Scope)
  : M Scope :=
  match body with
  | [] => ret locals
  | st :: rest =>
      locals' <- exec_stmt pkg st locals ;;
      exec_body pkg rest locals'
  end.

(** The call [obj.name(args..., kwargs...)] where [cls] is the namespace of the class
    of [obj] and no instance attribute shadows [name]: a function of the
    class is called as a bound method, a dispatch table goes through its
    [__get__]. *)
Definition call_method (h : Heap) (cls : Scope) (obj : Obj) (name : string)
    (args : list Obj) (kwargs : Kwargs) : list Invocation * Result :=
  match cls !! name with
  | None =>
      raise (AttributeError ("'" +:+ type_name obj
                               +:+ "' object has no attribute '" +:+ name +:+ "'"))
  | Some (VFunc f) => partial (invoke f) [obj] args kwargs
  | Some (VMulti r) =>
      match h !! r with
      | None => raise (SystemError "no such object")
      | Some table => __get__ table obj (type_name obj) args kwargs
      end
  end.

(** ** What the claims speak about *)

(** A message includes a piece of text. *)
Definition Includes (message part : string) : Prop :=
  ∃ pre post, message = pre +:+ part +:+ post.

(** The tables that the class can produce: built by the constructor, then
    changed by [register] only (also by a registration that raised). *)
Inductive reachable : SpecMultiMethod -> Prop :=
| reachable_init default0 : reachable (__init__ default0)
| reachable_register self spec method :
    reachable self -> reachable (register self spec method).1.

(** ** Strings *)

Lemma append_assoc (a b c : string) : (a +:+ b) +:+ c = a +:+ b +:+ c.
Proof.
  induction a as [|ch a IH]; [done|].
  change (String ch ((a +:+ b) +:+ c) = String ch (a +:+ b +:+ c)).
  by rewrite IH.
Qed.

Lemma append_empty_r (a : string) : a +:+ EmptyString = a.
Proof.
  induction a as [|ch a IH]; [done|].
  change (String ch (a +:+ EmptyString) = String ch a).
  by rewrite IH.
Qed.

Lemma includes_refl (part : string) : Includes part part.
Proof. exists EmptyString, EmptyString. by rewrite append_empty_r. Qed.

Lemma includes_head (part rest : string) : Includes (part +:+ rest) part.
Proof. by exists EmptyString, rest. Qed.

Lemma includes_prepend (a message part : string) :
  Includes message part -> Includes (a +:+ message) part.
Proof.
  intros (pre & post & ->). exists (a +:+ pre), post.
  by rewrite append_assoc.
Qed.

Lemma join_includes (sep x : string) (parts : list string) :
  In x parts -> Includes (join sep parts) x.
Proof.
  induction parts as [|p rest IH]; [done|].
  destruct rest as [|q rest].
  - intros [->|[]]. apply includes_refl.
  - intros [->|Hin].
    + apply includes_head.
    + change (Includes (p +:+ sep +:+ join sep (q :: rest)) x).
      do 2 apply includes_prepend. by apply IH.
Qed.

Local Ltac includes_tac :=
  first [ apply includes_head
        | apply includes_refl
        | apply includes_prepend; includes_tac ].

Lemma no_such_method_message_includes cls_name method_name spec possible :
  let message := no_such_method_message cls_name method_name spec possible in
  Includes message cls_name ∧ Includes message method_name ∧
  Includes message (str spec) ∧
  ∀ s, In s possible -> Includes message (str s).
Proof.
  unfold no_such_method_message. repeat split; try includes_tac.
  intros s Hs. do 7 apply includes_prepend.
  apply join_includes, in_map, Hs.
Qed.

Lemma ambiguous_method_message_includes cls_name method_name spec matching :
  let message := ambiguous_method_message cls_name method_name spec matching in
  Includes message cls_name ∧ Includes message method_name ∧
  Includes message (str spec) ∧
  ∀ s, In s matching -> Includes message (str s).
Proof.
  unfold ambiguous_method_message. repeat split; try includes_tac.
  intros s Hs. do 7 apply includes_prepend.
  apply join_includes, in_map, Hs.
Qed.

(** ** The keys of the dict and the matching specs *)

Lemma in_keys (m : gmap Spec Method) (s : Spec) :
  In s (keys m) ↔ is_Some (m !! s).
Proof.
  unfold keys. rewrite <- list_elem_of_In, list_elem_of_fmap. split.
  - intros ([s' method] & -> & Hin). apply elem_of_map_to_list in Hin. eauto.
  - intros [method Hm]. exists (s, method). split; [done|].
    by apply elem_of_map_to_list.
Qed.

Lemma NoDup_keys (m : gmap Spec Method) : NoDup (keys m).
Proof. apply NoDup_fst_map_to_list. Qed.

Lemma in_matching_specs (self : SpecMultiMethod) (spec s : Spec) :
  In s (matching_specs self spec)
  ↔ is_Some (method_map self !! s) ∧ satisfies s spec = true.
Proof. unfold matching_specs. by rewrite filter_In, in_keys. Qed.

Lemma NoDup_matching_specs (self : SpecMultiMethod) (spec : Spec) :
  NoDup (matching_specs self spec).
Proof. apply NoDup_ListNoDup, List.NoDup_filter, NoDup_ListNoDup, NoDup_keys. Qed.

Lemma NoDup_only (A : Type) (l : list A) (x : A) :
  NoDup l -> In x l -> (∀ y, In y l -> y = x) -> l = [x].
Proof.
  intros Hnd Hin Honly.
  destruct l as [|a [|b rest]]; [done| |].
  - by rewrite (Honly a (or_introl eq_refl)).
  - exfalso. apply NoDup_cons in Hnd as [Hnotin _].
    assert (a = b) as ->
      by (transitivity x; [|symmetry]; apply Honly; simpl; auto).
    apply Hnotin. by left.
Qed.

Lemma two_members_length (A : Type) (l : list A) (x y : A) :
  In x l -> In y l -> x ≠ y -> 2 <= length l.
Proof.
  destruct l as [|a [|b rest]]; simpl; [done| |lia].
  intros [<-|[]] [<-|[]] Hne. done.
Qed.

Lemma matching_specs_only (self : SpecMultiMethod) (descriptor s : Spec) :
  is_Some (method_map self !! s) ->
  satisfies s descriptor = true ->
  (∀ s', is_Some (method_map self !! s') ->
         satisfies s' descriptor = true -> s' = s) ->
  matching_specs self descriptor = [s].
Proof.
  intros Hin Hsat Honly. apply NoDup_only.
  - apply NoDup_matching_specs.
  - by apply in_matching_specs.
  - intros s' [Hin' Hsat']%in_matching_specs. by apply Honly.
Qed.

Lemma matching_specs_none (self : SpecMultiMethod) (descriptor : Spec) :
  (∀ s, is_Some (method_map self !! s) -> satisfies s descriptor = false) ->
  matching_specs self descriptor = [].
Proof.
  intros Hnone. destruct (matching_specs self descriptor) as [|s l] eqn:E; [done|].
  assert (In s (matching_specs self descriptor)) as [Hin Hsat]%in_matching_specs
    by (rewrite E; by left).
  rewrite (Hnone s Hin) in Hsat. done.
Qed.

(** ** Reachable tables are named once they hold something *)

Lemma register_named (self : SpecMultiMethod) (spec : Spec) (method : Method) :
  is_Some (__name__ (register self spec method).1).
Proof.
  unfold register. simpl. destruct (__name__ self) as [n|] eqn:E; simpl.
  - destruct (String.eqb n (fn_name method)); simpl; eauto.
  - eauto.
Qed.

Lemma reachable_named (self : SpecMultiMethod) (s : Spec) :
  reachable self -> is_Some (method_map self !! s) -> is_Some (__name__ self).
Proof.
  intros Hreach. induction Hreach as [default0|self spec method _ _].
  - destruct default0; simpl; rewrite lookup_empty; by intros [? ?].
  - intros _. apply register_named.
Qed.

(** ** Dispatch *)

(** C1.  When the descriptor of the receiver satisfies exactly one of the
    registered constraints, the call invokes the implementation registered
    for that constraint, once, with the receiver and the positional and
    keyword arguments of the call, and the result of the call is the result
    of that implementation. *)
Theorem call_unique_match (self : SpecMultiMethod) (package_self : Obj)
    (args : list Obj) (kwargs : Kwargs) (descriptor s : Spec) (method : Method) :
  spec_attr package_self = Some descriptor ->
  method_map self !! s = Some method ->
  satisfies s descriptor = true ->
  (∀ s', is_Some (method_map self !! s') ->
         satisfies s' descriptor = true -> s' = s) ->
  __call__ self (package_self :: args) kwargs
  = ([(method, package_self :: args, kwargs)],
     fn_code method (package_self :: args) kwargs).
Proof.
  intros Hspec Hreg Hsat Honly. unfold __call__. rewrite Hspec.
  rewrite (matching_specs_only self descriptor s); [|by eauto|done|done].
  simpl. by rewrite Hreg.
Qed.

(** C2.  The three outcomes of a call whose receiver's descriptor satisfies
    no registered constraint: the default is invoked with the receiver and
    the arguments when there is one; without a default, a table that has a
    name raises [NoSuchMethodError], whose message includes the type name of
    the receiver, the method name, the descriptor and every registered
    constraint; without a default and without a name, the call raises
    [AttributeError] while it builds that error. *)
Theorem call_no_match (self : SpecMultiMethod) (package_self : Obj)
    (args : list Obj) (kwargs : Kwargs) (descriptor : Spec) :
  spec_attr package_self = Some descriptor ->
  (∀ s, is_Some (method_map self !! s) -> satisfies s descriptor = false) ->
  match default self, __name__ self with
  | Some method, _ =>
      __call__ self (package_self :: args) kwargs
      = ([(method, package_self :: args, kwargs)],
         fn_code method (package_self :: args) kwargs)
  | None, Some name =>
      ∃ message,
        __call__ self (package_self :: args) kwargs
        = ([], inl (NoSuchMethodError message)) ∧
        Includes message (type_name package_self) ∧
        Includes message name ∧
        Includes message (str descriptor) ∧
        ∀ s, is_Some (method_map self !! s) -> Includes message (str s)
  | None, None =>
      __call__ self (package_self :: args) kwargs
      = ([], inl (AttributeError
                    "'SpecMultiMethod' object has no attribute '__name__'"))
  end.
Proof.
  intros Hspec Hnone. unfold __call__. rewrite Hspec.
  rewrite (matching_specs_none self descriptor Hnone). simpl.
  destruct (default self) as [method|]; [done|].
  destruct (__name__ self) as [name|]; [|done].
  eexists. split; [done|].
  pose proof (no_such_method_message_includes (type_name package_self) name
                descriptor (keys (method_map self))) as (Hc & Hn & Hd & Hk).
  repeat split; try done.
  intros s Hs. by apply Hk, in_keys.
Qed.

(** C3.  When the descriptor of the receiver satisfies two or more of the
    registered constraints, the call raises [AmbiguousMethodError] and
    invokes no implementation; the message includes the type name of the
    receiver, the method name, the descriptor and every matching
    constraint. *)
Theorem call_ambiguous (self : SpecMultiMethod) (package_self : Obj)
    (args : list Obj) (kwargs : Kwargs) (descriptor s1 s2 : Spec) :
  reachable self ->
  spec_attr package_self = Some descriptor ->
  s1 ≠ s2 ->
  is_Some (method_map self !! s1) -> satisfies s1 descriptor = true ->
  is_Some (method_map self !! s2) -> satisfies s2 descriptor = true ->
  ∃ name message,
    __name__ self = Some name ∧
    __call__ self (package_self :: args) kwargs
    = ([], inl (AmbiguousMethodError message)) ∧
    Includes message (type_name package_self) ∧
    Includes message name ∧
    Includes message (str descriptor) ∧
    ∀ s, is_Some (method_map self !! s) -> satisfies s descriptor = true ->
         Includes message (str s).
Proof.
  intros Hreach Hspec Hne Hin1 Hsat1 Hin2 Hsat2.
  destruct (reachable_named self s1 Hreach Hin1) as [name Hname].
  assert (2 <= length (matching_specs self descriptor)) as Hlen.
  { apply (two_members_length _ _ s1 s2); [| |done]; by apply in_matching_specs. }
  exists name. eexists. split; [done|]. split.
  - unfold __call__. rewrite Hspec, Hname. simpl.
    destruct (length (matching_specs self descriptor)) as [|[|n]]; [lia|lia|].
    simpl. reflexivity.
  - pose proof (ambiguous_method_message_includes (type_name package_self) name
                  descriptor (matching_specs self descriptor))
      as (Hc & Hn & Hd & Hk).
    repeat split; try done.
    intros s Hs Hsat. by apply Hk, in_matching_specs.
Qed.

(** C6.  Calling the table constructed with no default and no entries does
    not raise [NoSuchMethodError]: whatever the receiver, the call raises
    [AttributeError] and invokes nothing. *)
Theorem call_empty_table (package_self : Obj) (args : list Obj) (kwargs : Kwargs) :
  (∃ message,
     __call__ (__init__ None) (package_self :: args) kwargs
     = ([], inl (AttributeError message))) ∧
  ∀ message,
    __call__ (__init__ None) (package_self :: args) kwargs
    ≠ ([], inl (NoSuchMethodError message)).
Proof.
  unfold __call__, __init__, matching_specs, keys. simpl.
  rewrite map_to_list_empty. simpl.
  destruct (spec_attr package_self); split; eauto; intros message; discriminate.
Qed.

(** ** Registration *)

(** C5.  Registering an implementation whose name differs from the name the
    table already has fails at once, in [register] itself, with the
    assertion failure; registering into a table that has no name succeeds
    and the table takes the name of the implementation. *)
Theorem register_name_check (self : SpecMultiMethod) (spec : Spec)
    (method : Method) :
  (∀ name, __name__ self = Some name -> name ≠ fn_name method ->
     (register self spec method).2 = Some AssertionError) ∧
  (__name__ self = None ->
     (register self spec method).2 = None ∧
     __name__ (register self spec method).1 = Some (fn_name method)).
Proof.
  unfold register. simpl. split.
  - intros name -> Hne.
    destruct (String.eqb_spec name (fn_name method)); [done|reflexivity].
  - intros ->. done.
Qed.

(** C7.  Registering under a constraint that is already a key replaces the
    implementation of that constraint by the new one; the set of keys, the
    implementation of every other constraint and the default stay as they
    were. *)
Theorem register_replaces (self : SpecMultiMethod) (spec : Spec)
    (method old : Method) :
  method_map self !! spec = Some old ->
  method_map (register self spec method).1 !! spec = Some method ∧
  (∀ s, s ≠ spec ->
     method_map (register self spec method).1 !! s = method_map self !! s) ∧
  dom (method_map (register self spec method).1) = dom (method_map self) ∧
  default (register self spec method).1 = default self.
Proof.
  intros Hold.
  assert (method_map (register self spec method).1
          = <[spec := method]> (method_map self)) as ->.
  { unfold register. simpl. destruct (__name__ self) as [n|]; [|done].
    by destruct (String.eqb n (fn_name method)). }
  assert (default (register self spec method).1 = default self) as ->.
  { unfold register. simpl. destruct (__name__ self) as [n|]; [|done].
    by destruct (String.eqb n (fn_name method)). }
  repeat split.
  - apply lookup_insert_eq.
  - intros s Hne. by apply lookup_insert_ne.
  - apply dom_insert_lookup_L. eauto.
Qed.

(** ** Access through an instance *)

(** C8.  Calling a dispatch table through an instance of the class that
    holds it gives what calling the table with the instance as the first
    argument gives: the same invocations and the same value or error. *)
Theorem bound_call_same (h : Heap) (cls : Scope) (obj : Obj) (name : string)
    (r : Ref) (table : SpecMultiMethod) (args : list Obj) (kwargs : Kwargs) :
  cls !! name = Some (VMulti r) ->
  h !! r = Some table ->
  call_method h cls obj name args kwargs = __call__ table (obj :: args) kwargs.
Proof.
  intros Hname Htable. unfold call_method. rewrite Hname, Htable.
  reflexivity.
Qed.

(** ** The decorator *)

Lemma lookup_new (h : Heap) (table : SpecMultiMethod) :
  (h ++ [table]) !! length h = Some table.
Proof. by apply list_lookup_middle. Qed.

Lemma insert_new (h : Heap) (table table' : SpecMultiMethod) :
  <[length h := table']> (h ++ [table]) = h ++ [table'].
Proof. by rewrite insert_app_r_alt, Nat.sub_diag. Qed.

(** What [when.__call__] does when the name is not bound to a table: the
    table it creates, and whether the registration goes through. *)
Lemma when_call_not_table (self : when) (method : Method)
    (caller_locals : Scope) (h : Heap) :
  (∀ r, caller_locals !! fn_name method ≠ Some (VMulti r)) ->
  when_call self method caller_locals h
  = let created := __init__ (original_default (caller_locals !! fn_name method)) in
    let '(table, failure) := register created (spec self) method in
    (h ++ [table],
     match failure with Some e => inl e | None => inr (length h) end).
Proof.
  intros Hnot. unfold when_call.
  destruct (caller_locals !! fn_name method) as [[f|r]|] eqn:E;
    [| by destruct (Hnot r) |];
    unfold bind, new, register_at; rewrite lookup_new;
    simpl original_default;
    match goal with
    | |- context [register ?t ?s ?m] => destruct (register t s m) as [t' [e|]]
    end; by rewrite insert_new.
Qed.

(** C4, as the code has it.  When the name of the method is not bound to a
    dispatch table, and the function it is bound to, if there is one, bears
    the name of the method, the decorator creates a new table whose default
    is that function (no default when the name is not bound), registers the
    pair on it and returns it; the decorated definition then binds the name
    to the new table. *)
Theorem when_call_new_table (self : when) (method : Method)
    (caller_locals : Scope) (h : Heap) :
  (∀ r, caller_locals !! fn_name method ≠ Some (VMulti r)) ->
  (∀ f, caller_locals !! fn_name method = Some (VFunc f) ->
        fn_name f = fn_name method) ->
  let table :=
    {| method_map := {[ spec self := method ]};
       default := original_default (caller_locals !! fn_name method);
       __name__ := Some (fn_name method) |} in
  when_call self method caller_locals h = (h ++ [table], inr (length h)) ∧
  ∀ pkg spec_like,
    when_init spec_like pkg = self ->
    exec_stmt pkg (DefWhen spec_like method) caller_locals h
    = (h ++ [table],
       inr (<[fn_name method := VMulti (length h)]> caller_locals)).
Proof.
  intros Hnot Hsame table.
  assert (when_call self method caller_locals h
          = (h ++ [table], inr (length h))) as Hcall.
  { rewrite when_call_not_table by done. subst table.
    destruct (caller_locals !! fn_name method) as [[f|r]|] eqn:E;
      [| by destruct (Hnot r) |]; unfold register; simpl.
    - rewrite (Hsame f eq_refl), String.eqb_refl. by rewrite insert_empty.
    - by rewrite insert_empty. }
  split; [done|].
  intros pkg spec_like Hself. unfold exec_stmt, bind.
  by rewrite Hself, Hcall.
Qed.

(** C10, as the code has it.  When the name of the method is bound to a
    dispatch table whose name, if it has one, is the name of the method, the
    decorator returns that very table and creates none; the table keeps its
    default and its entries under other constraints, and maps the
    constraint of the decorator to the new implementation.  No other table
    changes. *)
Theorem when_call_existing_table (self : when) (method : Method)
    (caller_locals : Scope) (h : Heap) (r : Ref) (table : SpecMultiMethod) :
  caller_locals !! fn_name method = Some (VMulti r) ->
  h !! r = Some table ->
  (∀ name, __name__ table = Some name -> name = fn_name method) ->
  ∃ h' table',
    when_call self method caller_locals h = (h', inr r) ∧
    length h' = length h ∧
    h' !! r = Some table' ∧
    (∀ r', r' ≠ r -> h' !! r' = h !! r') ∧
    default table' = default table ∧
    method_map table' = <[spec self := method]> (method_map table) ∧
    method_map table' !! spec self = Some method ∧
    (∀ s, s ≠ spec self -> method_map table' !! s = method_map table !! s).
Proof.
  intros Hbound Htable Hname.
  exists (<[r := (register table (spec self) method).1]> h),
         (register table (spec self) method).1.
  assert ((register table (spec self) method).2 = None) as Hok.
  { unfold register; simpl. destruct (__name__ table) as [n|] eqn:E; [|done].
    by rewrite (Hname n eq_refl), String.eqb_refl. }
  assert (method_map (register table (spec self) method).1
          = <[spec self := method]> (method_map table)) as Hmap.
  { unfold register; simpl. destruct (__name__ table) as [n|]; [|done].
    by destruct (String.eqb n (fn_name method)). }
  repeat split.
  - unfold when_call. rewrite Hbound. unfold bind, ret, register_at.
    rewrite Htable. destruct (register table (spec self) method) as [t' e].
    simpl in Hok. by subst e.
  - apply length_insert.
  - apply list_lookup_insert_eq. by eapply lookup_lt_Some.
  - intros r' Hne. by apply list_lookup_insert_ne.
  - unfold register; simpl. destruct (__name__ table) as [n|]; [|done].
    by destruct (String.eqb n (fn_name method)).
  - done.
  - rewrite Hmap. apply lookup_insert_eq.
  - intros s Hne. rewrite Hmap. by apply lookup_insert_ne.
Qed.

(** ** Class bodies *)

Lemma exec_body_app (pkg : string) (body1 body2 : list Stmt)
    (locals : Scope) (h : Heap) :
  exec_body pkg (body1 ++ body2) locals h
  = match exec_body pkg body1 locals h with
    | (h', inl e) => (h', inl e)
    | (h', inr locals') => exec_body pkg body2 locals' h'
    end.
Proof.
  revert locals h. induction body1 as [|st body1 IH]; intros locals h; [done|].
  simpl. unfold bind.
  destruct (exec_stmt pkg st locals h) as [h' [e|locals']]; [done|].
  apply IH.
Qed.

(** C9.  A plain definition that comes after the constrained variants of
    the same name takes the name over: once the class body that ends with
    it has run, the name is bound to that function and no longer to the
    table, and calling the method on any instance, whatever its descriptor,
    invokes that function and nothing else. *)
Theorem later_def_replaces_table (pkg : string) (body : list Stmt)
    (method : Method) (locals locals1 : Scope) (h h1 : Heap) (r : Ref) :
  exec_body pkg body locals h = (h1, inr locals1) ->
  locals1 !! fn_name method = Some (VMulti r) ->
  ∃ locals2,
    exec_body pkg (body ++ [Def method]) locals h = (h1, inr locals2) ∧
    locals2 !! fn_name method = Some (VFunc method) ∧
    (∀ r', locals2 !! fn_name method ≠ Some (VMulti r')) ∧
    ∀ obj args kwargs,
      call_method h1 locals2 obj (fn_name method) args kwargs
      = ([(method, obj :: args, kwargs)], fn_code method (obj :: args) kwargs).
Proof.
  intros Hbody _.
  exists (<[fn_name method := VFunc method]> locals1).
  assert ((<[fn_name method := VFunc method]> locals1) !! fn_name method
          = Some (VFunc method)) as Hbound by apply lookup_insert_eq.
  repeat split.
  - by rewrite exec_body_app, Hbody.
  - done.
  - intros r'. by rewrite Hbound.
  - intros obj args kwargs. unfold call_method. by rewrite Hbound.
Qed.

(** ** More on dispatch *)

(** The fields of the table after [register], whatever the outcome. *)
Lemma register_method_map (self : SpecMultiMethod) (spec : Spec) (method : Method) :
  method_map (register self spec method).1
  = <[spec := method]> (method_map self).
Proof.
  unfold register; simpl. destruct (__name__ self) as [n|]; [|done].
  by destruct (String.eqb n (fn_name method)).
Qed.

Lemma register_default (self : SpecMultiMethod) (spec : Spec) (method : Method) :
  default (register self spec method).1 = default self.
Proof.
  unfold register; simpl. destruct (__name__ self) as [n|]; [|done].
  by destruct (String.eqb n (fn_name method)).
Qed.

Lemma register_name (self : SpecMultiMethod) (spec : Spec) (method : Method) :
  __name__ (register self spec method).1
  = Some (match __name__ self with Some n => n | None => fn_name method end).
Proof.
  unfold register; simpl. destruct (__name__ self) as [n|]; [|done].
  by destruct (String.eqb n (fn_name method)).
Qed.

Lemma register_outcome (self : SpecMultiMethod) (spec : Spec) (method : Method) :
  (register self spec method).2
  = match __name__ self with
    | Some n => if String.eqb n (fn_name method) then None else Some AssertionError
    | None => None
    end.
Proof.
  unfold register; simpl. destruct (__name__ self) as [n|]; [|done].
  by destruct (String.eqb n (fn_name method)).
Qed.

(** [__call__] by the shape of the list of matching specs. *)
Lemma call_cases (self : SpecMultiMethod) (package_self : Obj)
    (args : list Obj) (kwargs : Kwargs) (descriptor : Spec) :
  spec_attr package_self = Some descriptor ->
  __call__ self (package_self :: args) kwargs
  = match matching_specs self descriptor with
    | [] =>
        match default self, __name__ self with
        | Some method, _ => invoke method (package_self :: args) kwargs
        | None, Some name =>
            raise (NoSuchMethodError
                     (no_such_method_message (type_name package_self) name
                        descriptor (keys (method_map self))))
        | None, None =>
            raise (AttributeError
                     "'SpecMultiMethod' object has no attribute '__name__'")
        end
    | [s] =>
        match method_map self !! s with
        | Some method => invoke method (package_self :: args) kwargs
        | None => raise KeyError
        end
    | _ :: _ :: _ =>
        match __name__ self with
        | Some name =>
            raise (AmbiguousMethodError
                     (ambiguous_method_message (type_name package_self) name
                        descriptor (matching_specs self descriptor)))
        | None =>
            raise (AttributeError
                     "'SpecMultiMethod' object has no attribute '__name__'")
        end
    end.
Proof.
  intros Hspec. unfold __call__. rewrite Hspec.
  destruct (matching_specs self descriptor) as [|s [|s' rest]]; simpl.
  - by destruct (default self).
  - done.
  - done.
Qed.

Lemma matching_single (self : SpecMultiMethod) (descriptor s : Spec) :
  matching_specs self descriptor = [s] ->
  is_Some (method_map self !! s) ∧ satisfies s descriptor = true ∧
  ∀ s', is_Some (method_map self !! s') ->
        satisfies s' descriptor = true -> s' = s.
Proof.
  intros E.
  assert (∀ s', In s' [s] ↔ is_Some (method_map self !! s')
                            ∧ satisfies s' descriptor = true) as Hin
    by (intros s'; rewrite <- E; apply in_matching_specs).
  destruct (proj1 (Hin s) (or_introl eq_refl)) as [Hs Hsat].
  repeat split; [done..|].
  intros s' Hs' Hsat'. destruct (proj2 (Hin s') (conj Hs' Hsat')) as [->|[]].
  done.
Qed.

Lemma matching_empty (self : SpecMultiMethod) (descriptor : Spec) :
  matching_specs self descriptor = [] ->
  ∀ s, is_Some (method_map self !! s) -> satisfies s descriptor = false.
Proof.
  intros E s Hs. destruct (satisfies s descriptor) eqn:Hsat; [|done].
  assert (In s (matching_specs self descriptor)) as Hin
    by (by apply in_matching_specs).
  rewrite E in Hin. destruct Hin.
Qed.

(** X1.  A call either raises without invoking anything, or invokes one
    implementation, once, on the arguments of the call, and returns what it
    returns.  The implementation invoked is the default only when the
    descriptor of the receiver satisfies no registered constraint; otherwise
    it is the one registered for the only constraint that is satisfied. *)
Theorem call_invokes_selected (self : SpecMultiMethod) (pos : list Obj)
    (kwargs : Kwargs) :
  (∃ e, __call__ self pos kwargs = ([], inl e)) ∨
  (∃ method package_self args descriptor,
     pos = package_self :: args ∧
     spec_attr package_self = Some descriptor ∧
     __call__ self pos kwargs
     = ([(method, pos, kwargs)], fn_code method pos kwargs) ∧
     ((default self = Some method ∧
       ∀ s, is_Some (method_map self !! s) -> satisfies s descriptor = false) ∨
      (∃ s, method_map self !! s = Some method ∧
            satisfies s descriptor = true ∧
            ∀ s', is_Some (method_map self !! s') ->
                  satisfies s' descriptor = true -> s' = s))).
Proof.
  destruct pos as [|package_self args]; [left; by eexists|].
  destruct (spec_attr package_self) as [descriptor|] eqn:Hspec;
    [|left; unfold __call__; rewrite Hspec; by eexists].
  rewrite (call_cases self package_self args kwargs descriptor Hspec).
  destruct (matching_specs self descriptor) as [|s [|s' rest]] eqn:E.
  - destruct (default self) as [method|] eqn:Hd.
    + right. exists method, package_self, args, descriptor.
      repeat split; try done. left. split; [done|]. by apply matching_empty.
    + left. destruct (__name__ self); by eexists.
  - destruct (matching_single self descriptor s E) as ([method Hm] & Hsat & Honly).
    rewrite Hm. right. exists method, package_self, args, descriptor.
    repeat split; try done. right. by exists s.
  - left. destruct (__name__ self); by eexists.
Qed.

(** X2.  The dispatch itself never fails with [KeyError]: when one spec
    matches, [self.method_map[matching_specs[0]]] finds its key. *)
Theorem call_never_key_error (self : SpecMultiMethod) (pos : list Obj)
    (kwargs : Kwargs) :
  __call__ self pos kwargs ≠ ([], inl KeyError).
Proof.
  destruct pos as [|package_self args]; [discriminate|].
  destruct (spec_attr package_self) as [descriptor|] eqn:Hspec;
    [|unfold __call__; rewrite Hspec; discriminate].
  rewrite (call_cases self package_self args kwargs descriptor Hspec).
  destruct (matching_specs self descriptor) as [|s [|s' rest]] eqn:E.
  - destruct (default self), (__name__ self); discriminate.
  - destruct (matching_single self descriptor s E) as ([method Hm] & _).
    rewrite Hm. discriminate.
  - destruct (__name__ self); discriminate.
Qed.

(** X3.  A table built by the constructor and [register] lacks a name
    exactly when it has no default and no entry. *)
Theorem reachable_unnamed_iff_empty (self : SpecMultiMethod) :
  reachable self ->
  (__name__ self = None ↔ default self = None ∧ method_map self = ∅).
Proof.
  intros Hreach. induction Hreach as [default0|self spec method _ _].
  - destruct default0; simpl; split; try done. by intros [? _].
  - rewrite register_name, register_method_map. split; [done|].
    intros [_ Hempty]. by apply insert_non_empty in Hempty.
Qed.

(** X4.  On a table built by the constructor and [register] that has a
    default or an entry, a call on a receiver that has a spec has three
    possible outcomes: one implementation is invoked, [NoSuchMethodError],
    or [AmbiguousMethodError].  The missing [__name__] cannot show. *)
Theorem call_outcomes_when_populated (self : SpecMultiMethod)
    (package_self : Obj) (args : list Obj) (kwargs : Kwargs) (descriptor : Spec) :
  reachable self ->
  spec_attr package_self = Some descriptor ->
  default self ≠ None ∨ method_map self ≠ ∅ ->
  (∃ method,
     __call__ self (package_self :: args) kwargs
     = ([(method, package_self :: args, kwargs)],
        fn_code method (package_self :: args) kwargs)) ∨
  (∃ message,
     __call__ self (package_self :: args) kwargs
     = ([], inl (NoSuchMethodError message))) ∨
  (∃ message,
     __call__ self (package_self :: args) kwargs
     = ([], inl (AmbiguousMethodError message))).
Proof.
  intros Hreach Hspec Hpop.
  assert (is_Some (__name__ self)) as [name Hname].
  { destruct Hreach as [default0|self0 spec method _].
    - destruct default0 as [d|]; [by eexists|]. by destruct Hpop.
    - apply register_named. }
  rewrite (call_cases self package_self args kwargs descriptor Hspec), Hname.
  destruct (matching_specs self descriptor) as [|s [|s' rest]] eqn:E.
  - destruct (default self) as [method|]; [left|right; left]; by eexists.
  - destruct (matching_single self descriptor s E) as ([method Hm] & _).
    rewrite Hm. left. by eexists.
  - right; right. by eexists.
Qed.

(** ** More on registration *)

Lemma table_eq (a b : SpecMultiMethod) :
  method_map a = method_map b -> default a = default b ->
  __name__ a = __name__ b -> a = b.
Proof. destruct a, b; simpl; congruence. Qed.

(** The tables built by the constructor and by registrations that did not
    fail. *)
Inductive built : SpecMultiMethod -> Prop :=
| built_init default0 : built (__init__ default0)
| built_register self spec method :
    built self -> (register self spec method).2 = None ->
    built (register self spec method).1.

Lemma built_unnamed (self : SpecMultiMethod) :
  built self -> __name__ self = None ->
  default self = None ∧ method_map self = ∅.
Proof.
  intros [default0|self0 spec method _ _].
  - by destruct default0.
  - by rewrite register_name.
Qed.

(** X5.  A registration fails only against a table that has another name,
    and a registration that fails has written its entry all the same: the
    dict is updated before the names are compared.  The name stays. *)
Theorem register_failed_still_written (self : SpecMultiMethod) (spec : Spec)
    (method : Method) (e : Exn) :
  (register self spec method).2 = Some e ->
  e = AssertionError ∧
  method_map (register self spec method).1 !! spec = Some method ∧
  ∃ name, __name__ self = Some name ∧ name ≠ fn_name method ∧
          __name__ (register self spec method).1 = Some name.
Proof.
  rewrite register_outcome, register_method_map, register_name.
  destruct (__name__ self) as [n|]; [|done].
  destruct (String.eqb_spec n (fn_name method)) as [|Hne]; [done|].
  intros [= <-]. repeat split; [apply lookup_insert_eq|]. by exists n.
Qed.

(** X6.  [register] never changes the name a table already has, nor its
    default, nor the implementation under any other constraint, whether the
    constraint was registered before or not and whether the registration
    fails or not. *)
Theorem register_keeps_identity (self : SpecMultiMethod) (spec : Spec)
    (method : Method) (name : string) :
  __name__ self = Some name ->
  __name__ (register self spec method).1 = Some name ∧
  default (register self spec method).1 = default self ∧
  ∀ s, s ≠ spec ->
       method_map (register self spec method).1 !! s = method_map self !! s.
Proof.
  intros Hname. rewrite register_name, register_default, register_method_map, Hname.
  repeat split. intros s Hne. by apply lookup_insert_ne.
Qed.

(** X7.  Registering under a constraint that is not yet a key adds that
    key and no other: the table has one entry more. *)
Theorem register_new_key (self : SpecMultiMethod) (spec : Spec) (method : Method) :
  method_map self !! spec = None ->
  method_map (register self spec method).1 !! spec = Some method ∧
  dom (method_map (register self spec method).1) = {[spec]} ∪ dom (method_map self) ∧
  size (method_map (register self spec method).1) = S (size (method_map self)).
Proof.
  intros Hnew. rewrite register_method_map. repeat split.
  - apply lookup_insert_eq.
  - apply dom_insert_L.
  - by apply map_size_insert_None.
Qed.

(** X8.  Two implementations of the same name registered under two
    different constraints give the same table in either order. *)
Theorem register_commutes (self : SpecMultiMethod) (spec1 spec2 : Spec)
    (method1 method2 : Method) :
  spec1 ≠ spec2 ->
  fn_name method1 = fn_name method2 ->
  (register (register self spec1 method1).1 spec2 method2).1
  = (register (register self spec2 method2).1 spec1 method1).1.
Proof.
  intros Hne Hnames. apply table_eq.
  - rewrite !register_method_map. by apply insert_insert_ne.
  - by rewrite !register_default.
  - rewrite !register_name. destruct (__name__ self); [done|]. by rewrite Hnames.
Qed.

(** X9.  Registering the same pair a second time changes nothing and has
    the outcome of the first registration. *)
Theorem register_idempotent (self : SpecMultiMethod) (spec : Spec)
    (method : Method) :
  register (register self spec method).1 spec method
  = register self spec method.
Proof.
  apply injective_projections.
  - apply table_eq.
    + rewrite !register_method_map. apply insert_insert_eq.
    + by rewrite !register_default.
    + rewrite !register_name. by destruct (__name__ self).
  - rewrite !register_outcome, register_name.
    destruct (__name__ self) as [n|]; [done|]. by rewrite String.eqb_refl.
Qed.

(** X10.  As long as no registration has failed, the default and every
    registered implementation bear the name of the table. *)
Theorem built_names_agree (self : SpecMultiMethod) (name : string) :
  built self ->
  __name__ self = Some name ->
  (∀ d, default self = Some d -> fn_name d = name) ∧
  (∀ s method, method_map self !! s = Some method -> fn_name method = name).
Proof.
  intros Hbuilt. revert name.
  induction Hbuilt as [default0|self spec method Hself IH Hok]; intros name.
  - destruct default0 as [d|]; simpl; [|done].
    intros [= <-]. split; [by intros ? [= <-]|].
    intros s method. by rewrite lookup_empty.
  - rewrite register_outcome in Hok.
    rewrite register_name, register_default, register_method_map.
    destruct (__name__ self) as [n|] eqn:Hn.
    + destruct (String.eqb_spec n (fn_name method)) as [Heq|]; [|done].
      intros [= <-]. destruct (IH n eq_refl) as [IHd IHm]. split; [done|].
      intros s m [[_ <-]|[_ Hm]]%lookup_insert_Some; [done|by eapply IHm].
    + destruct (built_unnamed self Hself Hn) as [Hd Hm]. rewrite Hd, Hm.
      intros [= <-]. split; [done|].
      intros s m [[_ <-]|[_ Hs]]%lookup_insert_Some; [done|].
      by rewrite lookup_empty in Hs.
Qed.

(** ** More on the decorator and on class bodies *)

Lemma register_ok_name (self : SpecMultiMethod) (spec : Spec) (method : Method) :
  (register self spec method).2 = None ->
  __name__ (register self spec method).1 = Some (fn_name method).
Proof.
  rewrite register_outcome, register_name.
  destruct (__name__ self) as [n|]; [|done].
  destruct (String.eqb_spec n (fn_name method)) as [->|]; done.
Qed.

(** [when.__call__] when the name is bound to the table that [r] names. *)
Lemma when_call_table (self : when) (method : Method) (caller_locals : Scope)
    (h : Heap) (r : Ref) :
  caller_locals !! fn_name method = Some (VMulti r) ->
  when_call self method caller_locals h
  = match h !! r with
    | None => (h, inl (SystemError "no such object"))
    | Some table =>
        (<[r := (register table (spec self) method).1]> h,
         match (register table (spec self) method).2 with
         | Some e => inl e
         | None => inr r
         end)
    end.
Proof.
  intros Hbound. unfold when_call. rewrite Hbound.
  unfold bind, ret, register_at. destruct (h !! r) as [table|]; [|done].
  by destruct (register table (spec self) method) as [table' [e|]].
Qed.

(** [when.__call__] when the name is bound to no table. *)
Lemma when_call_fresh (self : when) (method : Method) (caller_locals : Scope)
    (h : Heap) :
  (∀ r, caller_locals !! fn_name method ≠ Some (VMulti r)) ->
  let created := __init__ (original_default (caller_locals !! fn_name method)) in
  when_call self method caller_locals h
  = (h ++ [(register created (spec self) method).1],
     match (register created (spec self) method).2 with
     | Some e => inl e
     | None => inr (length h)
     end).
Proof.
  intros Hnot created. rewrite when_call_not_table by done.
  cbv zeta. subst created.
  by destruct (register _ (spec self) method) as [table' [e|]].
Qed.

(** X11.  The table that the decorator returns has the name of the
    decorated method and maps the constraint of the decorator to that
    method: a table that comes from the decorator is never nameless. *)
Theorem when_call_returns_named (self : when) (method : Method)
    (caller_locals : Scope) (h h' : Heap) (r : Ref) :
  when_call self method caller_locals h = (h', inr r) ->
  ∃ table,
    h' !! r = Some table ∧
    __name__ table = Some (fn_name method) ∧
    method_map table !! spec self = Some method.
Proof.
  destruct (caller_locals !! fn_name method) as [[f|r0]|] eqn:Hbound.
  - rewrite when_call_fresh by (intros r0; by rewrite Hbound).
    destruct (register _ _ _).2 eqn:Hok; [done|]. intros [= <- <-].
    eexists. split; [apply lookup_new|]. split; [by apply register_ok_name|].
    rewrite register_method_map. apply lookup_insert_eq.
  - rewrite (when_call_table self method caller_locals h r0 Hbound).
    destruct (h !! r0) as [table|] eqn:Htable; [|done].
    destruct (register table (spec self) method).2 eqn:Hok; [done|].
    intros [= <- <-]. eexists. split.
    { apply list_lookup_insert_eq. by eapply lookup_lt_Some. }
    split; [by apply register_ok_name|].
    rewrite register_method_map. apply lookup_insert_eq.
  - rewrite when_call_fresh by (intros r0; by rewrite Hbound).
    destruct (register _ _ _).2 eqn:Hok; [done|]. intros [= <- <-].
    eexists. split; [apply lookup_new|]. split; [by apply register_ok_name|].
    rewrite register_method_map. apply lookup_insert_eq.
Qed.

(** X12.  The decorator leaves every table alone but the one the name of
    the method is bound to, and it removes none, whether it returns or
    raises. *)
Theorem when_call_frame (self : when) (method : Method)
    (caller_locals : Scope) (h : Heap) (r : Ref) (table : SpecMultiMethod) :
  h !! r = Some table ->
  caller_locals !! fn_name method ≠ Some (VMulti r) ->
  (when_call self method caller_locals h).1 !! r = Some table ∧
  length h <= length (when_call self method caller_locals h).1.
Proof.
  intros Htable Hother.
  destruct (caller_locals !! fn_name method) as [[f|r0]|] eqn:Hbound.
  - rewrite when_call_fresh by (intros r0; by rewrite Hbound). cbn [fst].
    rewrite length_app. split; [|lia]. by apply lookup_app_l_Some.
  - rewrite (when_call_table self method caller_locals h r0 Hbound).
    destruct (h !! r0) as [table0|]; cbn [fst]; [|by split].
    split; [|apply Nat.eq_le_incl; symmetry; apply length_insert].
    rewrite <- Htable. apply list_lookup_insert_ne. intros ->. by apply Hother.
  - rewrite when_call_fresh by (intros r0; by rewrite Hbound). cbn [fst].
    rewrite length_app. split; [|lia]. by apply lookup_app_l_Some.
Qed.





(** ** The documented pattern: the default first, then the variants *)

(** The decorated definitions [@when(c) def m] of a list of pairs. *)
Definition variant_stmts (variants : list (string * Method)) : list Stmt :=
  map (fun v => DefWhen v.1 v.2) variants.

(** The constraint that [when(c)] holds in the class body of [pkg]. *)
Definition constraint_of (pkg : string) (v : string * Method) : Spec :=
  spec (when_init v.1 pkg).

(** The registrations of a list of variants, one after the other. *)
Definition register_all (pkg : string) (table : SpecMultiMethod)
    (variants : list (string * Method)) : SpecMultiMethod :=
  foldl (fun t v => (register t (constraint_of pkg v) v.2).1) table variants.

Lemma register_all_default pkg table variants :
  default (register_all pkg table variants) = default table.
Proof.
  revert table. induction variants as [|v vs IH]; intros table; [done|].
  simpl. by rewrite IH, register_default.
Qed.

Lemma register_all_name pkg table variants name :
  __name__ table = Some name ->
  __name__ (register_all pkg table variants) = Some name.
Proof.
  revert table. induction variants as [|v vs IH]; intros table Hname; [done|].
  simpl. apply IH. by rewrite register_name, Hname.
Qed.

Lemma register_all_lookup_other pkg table variants s :
  ¬ In s (map (constraint_of pkg) variants) ->
  method_map (register_all pkg table variants) !! s = method_map table !! s.
Proof.
  revert table. induction variants as [|v vs IH]; intros table Hnotin; [done|].
  simpl in *. rewrite IH by tauto. rewrite register_method_map.
  apply lookup_insert_ne. intros Heq. apply Hnotin. by left.
Qed.

Lemma register_all_keys pkg table variants s :
  is_Some (method_map (register_all pkg table variants) !! s) ->
  is_Some (method_map table !! s) ∨ In s (map (constraint_of pkg) variants).
Proof.
  revert table. induction variants as [|v vs IH]; intros table; [by left|].
  simpl. intros [Hs|Hin]%IH; [|by right; right].
  rewrite register_method_map in Hs.
  apply lookup_insert_is_Some in Hs as [<-|[_ Hs]]; [right; by left|by left].
Qed.

Lemma register_all_lookup pkg table variants v :
  List.NoDup (map (constraint_of pkg) variants) ->
  In v variants ->
  method_map (register_all pkg table variants) !! constraint_of pkg v = Some v.2.
Proof.
  revert table. induction variants as [|v0 vs IH]; intros table Hnd Hin; [done|].
  apply List.NoDup_cons_iff in Hnd as [Hnotin Hnd]. simpl.
  destruct Hin as [->|Hin]; [|by apply IH].
  rewrite register_all_lookup_other by done.
  rewrite register_method_map. apply lookup_insert_eq.
Qed.

Lemma call_method_through_table (h : Heap) (cls : Scope) (obj : Obj)
    (name : string) (r : Ref) (table : SpecMultiMethod) (args : list Obj)
    (kwargs : Kwargs) :
  cls !! name = Some (VMulti r) -> h !! r = Some table ->
  call_method h cls obj name args kwargs = __call__ table (obj :: args) kwargs.
Proof. intros Hname Htable. unfold call_method. by rewrite Hname, Htable. Qed.

(** Decorated definitions of one name, run against the table of that
    name, all register on that table. *)
Lemma exec_variants (pkg : string) (variants : list (string * Method))
    (locals : Scope) (h : Heap) (name : string) (r : Ref)
    (table : SpecMultiMethod) :
  locals !! name = Some (VMulti r) ->
  h !! r = Some table ->
  __name__ table = Some name ->
  Forall (fun v => fn_name v.2 = name) variants ->
  exec_body pkg (variant_stmts variants) locals h
  = (<[r := register_all pkg table variants]> h, inr locals).
Proof.
  intros Hbound. revert h table.
  induction variants as [|v vs IH]; intros h table Hr Hname Hall.
  - simpl. unfold ret. f_equal. symmetry. by apply list_insert_id.
  - apply Forall_cons in Hall as [Hv Hall]. simpl. unfold bind at 1.
    unfold exec_stmt, bind.
    rewrite (when_call_table _ v.2 locals h r) by (by rewrite Hv).
    rewrite Hr, register_outcome, Hname, Hv, String.eqb_refl.
    unfold ret at 1. rewrite (insert_id locals name) by done.
    rewrite (IH _ (register table (spec (when_init v.1 pkg)) v.2).1).
    + f_equal. apply list_insert_insert_eq.
    + apply list_lookup_insert_eq. by eapply lookup_lt_Some.
    + by rewrite register_name, Hname.
    + done.
Qed.

(** What the body [def d; @when(c1) def m1; ...; @when(cn) def mn] leaves,
    all of one name. *)
Lemma default_first_exec (pkg : string) (d : Method)
    (v : string * Method) (vs : list (string * Method))
    (locals : Scope) (h : Heap) :
  Forall (fun v' => fn_name v'.2 = fn_name d) (v :: vs) ->
  exec_body pkg (Def d :: variant_stmts (v :: vs)) locals h
  = (h ++ [register_all pkg (__init__ (Some d)) (v :: vs)],
     inr (<[fn_name d := VMulti (length h)]> locals)).
Proof.
  intros [Hv Hall]%Forall_cons.
  change (exec_body pkg (Def d :: variant_stmts (v :: vs)) locals h)
    with (bind (exec_stmt pkg (DefWhen v.1 v.2)
                  (<[fn_name d := VFunc d]> locals))
               (fun locals' => exec_body pkg (variant_stmts vs) locals') h).
  unfold bind at 1. unfold exec_stmt, bind.
  assert ((<[fn_name d := VFunc d]> locals) !! fn_name v.2 = Some (VFunc d))
    as Hbound by (rewrite Hv; apply lookup_insert_eq).
  rewrite when_call_fresh by (intros r; by rewrite Hbound).
  rewrite register_outcome, Hbound. simpl original_default. simpl __name__.
  rewrite Hv, String.eqb_refl. unfold ret at 1.
  rewrite insert_insert_eq.
  rewrite (exec_variants pkg vs _ _ (fn_name d) (length h)
             (register (__init__ (Some d)) (spec (when_init v.1 pkg)) v.2).1).
  - f_equal. apply insert_new.
  - apply lookup_insert_eq.
  - apply lookup_new.
  - by rewrite register_name.
  - done.
Qed.

(** X14.  The documented pattern works: after the default and then one or
    more decorated variants of the same name, the name is bound to one new
    table that holds the default, and a call on an instance whose spec
    satisfies none of the constraints runs the default. *)
Theorem default_first_runs_default (pkg : string) (d : Method)
    (v : string * Method) (vs : list (string * Method))
    (locals : Scope) (h : Heap) :
  Forall (fun v' => fn_name v'.2 = fn_name d) (v :: vs) ->
  ∃ table,
    exec_body pkg (Def d :: variant_stmts (v :: vs)) locals h
    = (h ++ [table], inr (<[fn_name d := VMulti (length h)]> locals)) ∧
    default table = Some d ∧
    ∀ obj args kwargs descriptor,
      spec_attr obj = Some descriptor ->
      (∀ v', In v' (v :: vs) ->
             satisfies (constraint_of pkg v') descriptor = false) ->
      call_method (h ++ [table]) (<[fn_name d := VMulti (length h)]> locals)
        obj (fn_name d) args kwargs
      = ([(d, obj :: args, kwargs)], fn_code d (obj :: args) kwargs).
Proof.
  intros Hall. exists (register_all pkg (__init__ (Some d)) (v :: vs)).
  split; [by apply default_first_exec|].
  split; [by rewrite register_all_default|].
  intros obj args kwargs descriptor Hspec Hnone.
  rewrite (call_method_through_table _ _ obj (fn_name d) (length h)
             (register_all pkg (__init__ (Some d)) (v :: vs)));
    [|apply lookup_insert_eq|apply lookup_new].
  rewrite (call_cases _ obj args kwargs descriptor Hspec).
  rewrite matching_specs_none.
  - by rewrite register_all_default.
  - intros s [Hs|Hin]%register_all_keys.
    + simpl in Hs. rewrite lookup_empty in Hs. by destruct Hs.
    + apply in_map_iff in Hin as (v' & <- & Hv'). by apply Hnone.
Qed.

(** X15.  After the same body, with constraints that differ from one
    another, a call on an instance whose spec satisfies the constraint of
    one variant and of no other runs that variant. *)
Theorem default_first_runs_variant (pkg : string) (d : Method)
    (v : string * Method) (vs : list (string * Method))
    (locals : Scope) (h : Heap) (chosen : string * Method)
    (obj : Obj) (args : list Obj) (kwargs : Kwargs) (descriptor : Spec) :
  Forall (fun v' => fn_name v'.2 = fn_name d) (v :: vs) ->
  List.NoDup (map (constraint_of pkg) (v :: vs)) ->
  In chosen (v :: vs) ->
  spec_attr obj = Some descriptor ->
  satisfies (constraint_of pkg chosen) descriptor = true ->
  (∀ v', In v' (v :: vs) -> v' ≠ chosen ->
         satisfies (constraint_of pkg v') descriptor = false) ->
  ∃ h' locals',
    exec_body pkg (Def d :: variant_stmts (v :: vs)) locals h
    = (h', inr locals') ∧
    call_method h' locals' obj (fn_name d) args kwargs
    = ([(chosen.2, obj :: args, kwargs)],
       fn_code chosen.2 (obj :: args) kwargs).
Proof.
  intros Hall Hnd Hin Hspec Hsat Hothers.
  eexists _, _. split; [by apply default_first_exec|].
  rewrite (call_method_through_table _ _ obj (fn_name d) (length h)
             (register_all pkg (__init__ (Some d)) (v :: vs)));
    [|apply lookup_insert_eq|apply lookup_new].
  rewrite (call_cases _ obj args kwargs descriptor Hspec).
  pose proof (register_all_lookup pkg (__init__ (Some d)) (v :: vs) chosen
                Hnd Hin) as Hlookup.
  rewrite (matching_specs_only _ descriptor (constraint_of pkg chosen));
    [by rewrite Hlookup|by eexists|done|].
  intros s [Hs|Hs]%register_all_keys Hsats.
  - simpl in Hs. rewrite lookup_empty in Hs. by destruct Hs.
  - apply in_map_iff in Hs as (v' & <- & Hv').
    destruct (satisfies (constraint_of pkg v') descriptor) eqn:E; [|done].
    destruct v' as [c' m'], chosen as [c m].
    destruct (decide (c' = c)) as [->|Hc]; [done|].
    rewrite Hothers in E; [done|done|]. intros [= ? ?]. done.
Qed.

(** ** Registration followed by dispatch *)

(** X16.  A registration does not resolve an ambiguity: when two
    registered constraints are satisfied by the spec of the receiver, the
    call is still ambiguous after any further registration on the table. *)
Theorem register_keeps_ambiguity (self : SpecMultiMethod) (spec : Spec)
    (method : Method) (package_self : Obj) (args : list Obj)
    (kwargs : Kwargs) (descriptor s1 s2 : Spec) :
  spec_attr package_self = Some descriptor ->
  s1 ≠ s2 ->
  is_Some (method_map self !! s1) -> satisfies s1 descriptor = true ->
  is_Some (method_map self !! s2) -> satisfies s2 descriptor = true ->
  ∃ message,
    __call__ (register self spec method).1 (package_self :: args) kwargs
    = ([], inl (AmbiguousMethodError message)).
Proof.
  intros Hspec Hne Hin1 Hsat1 Hin2 Hsat2.
  assert (∀ s, is_Some (method_map self !! s) ->
               is_Some (method_map (register self spec method).1 !! s)) as Hkeep.
  { intros s Hs. rewrite register_method_map.
    apply lookup_insert_is_Some. destruct (decide (spec = s)); auto. }
  assert (2 <= length (matching_specs (register self spec method).1 descriptor))
    as Hlen.
  { apply (two_members_length _ _ s1 s2); [| |done];
      apply in_matching_specs; auto. }
  rewrite (call_cases _ package_self args kwargs descriptor Hspec).
  destruct (register_named self spec method) as [name ->].
  destruct (matching_specs (register self spec method).1 descriptor)
    as [|s [|s' rest]]; simpl in Hlen; [lia|lia|].
  by eexists.
Qed.

(** X17.  What was just registered is what a call finds: when the spec of
    the receiver satisfies the constraint just registered and no other
    registered constraint, the call runs the implementation just
    registered, also when the registration failed its name check. *)
Theorem register_then_call (self : SpecMultiMethod) (spec : Spec)
    (method : Method) (package_self : Obj) (args : list Obj)
    (kwargs : Kwargs) (descriptor : Spec) :
  spec_attr package_self = Some descriptor ->
  satisfies spec descriptor = true ->
  (∀ s, s ≠ spec -> is_Some (method_map self !! s) ->
        satisfies s descriptor = false) ->
  __call__ (register self spec method).1 (package_self :: args) kwargs
  = ([(method, package_self :: args, kwargs)],
     fn_code method (package_self :: args) kwargs).
Proof.
  intros Hspec Hsat Hothers.
  assert (method_map (register self spec method).1 !! spec = Some method)
    as Hnew by (rewrite register_method_map; apply lookup_insert_eq).
  rewrite (call_cases _ package_self args kwargs descriptor Hspec).
  rewrite (matching_specs_only _ descriptor spec);
    [by rewrite Hnew|by eexists|done|].
  intros s Hs Hsats. destruct (decide (s = spec)) as [|Hne]; [done|].
  rewrite register_method_map, lookup_insert_ne in Hs by done.
  by rewrite (Hothers s Hne Hs) in Hsats.
Qed.

(** ** The text of the two dispatch errors *)

(** X18.  The message of [AmbiguousMethodError] is the fixed text with the
    type name of the receiver, the name of the table and the spec of the
    receiver filled in, followed by the matching constraints separated by
    commas: each registered constraint that the spec satisfies is listed
    once, and nothing else is listed. *)
Theorem ambiguous_message_lists_matches (self : SpecMultiMethod)
    (package_self : Obj) (args : list Obj) (kwargs : Kwargs)
    (descriptor s1 s2 : Spec) :
  reachable self ->
  spec_attr package_self = Some descriptor ->
  s1 ≠ s2 ->
  is_Some (method_map self !! s1) -> satisfies s1 descriptor = true ->
  is_Some (method_map self !! s2) -> satisfies s2 descriptor = true ->
  ∃ name listed,
    __name__ self = Some name ∧
    __call__ self (package_self :: args) kwargs
    = ([], inl (AmbiguousMethodError
                  ("Package " +:+ type_name package_self
                     +:+ " has multiple versions of " +:+ name
                     +:+ " that match " +:+ str descriptor +:+ ": "
                     +:+ join "," (map str listed)))) ∧
    NoDup listed ∧
    ∀ s, In s listed
         ↔ is_Some (method_map self !! s) ∧ satisfies s descriptor = true.
Proof.
  intros Hreach Hspec Hne Hin1 Hsat1 Hin2 Hsat2.
  destruct (reachable_named self s1 Hreach Hin1) as [name Hname].
  exists name, (matching_specs self descriptor).
  split; [done|]. split; [|split].
  - assert (2 <= length (matching_specs self descriptor)) as Hlen.
    { apply (two_members_length _ _ s1 s2); [| |done];
        by apply in_matching_specs. }
    rewrite (call_cases self package_self args kwargs descriptor Hspec), Hname.
    by destruct (matching_specs self descriptor) as [|s [|s' rest]];
      simpl in Hlen; [lia|lia|].
  - apply NoDup_matching_specs.
  - intros s. apply in_matching_specs.
Qed.

(** X19.  The message of [NoSuchMethodError] is the fixed text with the
    type name of the receiver, the name of the table and the spec of the
    receiver filled in, followed by the registered constraints separated by
    a comma and a space: each registered constraint is listed once, and
    nothing else is listed. *)
Theorem no_such_method_message_lists_keys (self : SpecMultiMethod)
    (package_self : Obj) (args : list Obj) (kwargs : Kwargs)
    (descriptor : Spec) (name : string) :
  __name__ self = Some name ->
  default self = None ->
  spec_attr package_self = Some descriptor ->
  (∀ s, is_Some (method_map self !! s) -> satisfies s descriptor = false) ->
  ∃ listed,
    __call__ self (package_self :: args) kwargs
    = ([], inl (NoSuchMethodError
                  ("Package " +:+ type_name package_self
                     +:+ " does not support " +:+ name
                     +:+ " called with " +:+ str descriptor
                     +:+ ".  Options are: "
                     +:+ join ", " (map str listed)))) ∧
    NoDup listed ∧
    ∀ s, In s listed ↔ is_Some (method_map self !! s).
Proof.
  intros Hname Hdefault Hspec Hnone.
  exists (keys (method_map self)). split; [|split].
  - rewrite (call_cases self package_self args kwargs descriptor Hspec).
    by rewrite (matching_specs_none self descriptor Hnone), Hdefault, Hname.
  - apply NoDup_keys.
  - intros s. apply in_keys.
Qed.

End Dispatch.

(** ** A package with several versions of [install]

    Specs are written as strings, and a constraint is satisfied by a spec
    that it is a prefix of. *)

Inductive PyObj : Type :=
| Package (cls : string) (spec : string)
| Str (value : string)
| PyNone.

#[local] Instance scenario : Collaborators string PyObj := {|
  satisfies s spec := String.prefix s spec;
  str s := s;
  spec_attr obj := match obj with Package _ spec => Some spec | _ => None end;
  type_name obj :=
    match obj with
    | Package cls _ => cls
    | Str _ => "str"
    | PyNone => "NoneType"
    end;
  parse_anonymous_spec spec_like pkg := spec_like
|}.

Definition install_default : Method :=
  mkMethod "install" (fun _ _ => inr (Str "default")).
Definition install_gcc : Method :=
  mkMethod "install" (fun _ _ => inr (Str "gcc")).
Definition install_gcc4 : Method :=
  mkMethod "install" (fun _ _ => inr (Str "gcc4")).
Definition install_bgq : Method :=
  mkMethod "install" (fun _ _ => inr (Str "bgq")).
Definition setup_gcc : Method :=
  mkMethod "setup" (fun _ _ => inr PyNone).
Definition generic : Method :=
  mkMethod "generic" (fun _ _ => inr (Str "generic")).

(** Default and two disjoint constraints. *)
Definition install_table : @SpecMultiMethod string _ _ PyObj :=
  (register (register (__init__ (Some install_default))
               "%gcc" install_gcc).1 "=bgq" install_bgq).1.

(** No default, two constraints that overlap. *)
Definition overlapping_table : @SpecMultiMethod string _ _ PyObj :=
  (register (register (__init__ None)
               "%gcc" install_gcc).1 "%gcc@4" install_gcc4).1.

Definition libelf_gcc : PyObj := Package "Libelf" "%gcc@4.7".
Definition libelf_xl : PyObj := Package "Libelf" "%xl".

Lemma install_table_map :
  method_map install_table
  = <["=bgq" := install_bgq]> (<["%gcc" := install_gcc]> ∅).
Proof. reflexivity. Qed.

Lemma overlapping_table_map :
  method_map overlapping_table
  = <["%gcc@4" := install_gcc4]> (<["%gcc" := install_gcc]> ∅).
Proof. reflexivity. Qed.

(** The messages of the two dispatch errors, as the code renders them. *)
Example ambiguous_message_rendered :
  __call__ overlapping_table [libelf_gcc; Str "/opt"] []
  = ([], inl (AmbiguousMethodError
       "Package Libelf has multiple versions of install that match %gcc@4.7: %gcc@4,%gcc")).
Proof. vm_compute. reflexivity. Qed.

Example no_such_method_message_rendered :
  __call__ overlapping_table [libelf_xl; Str "/opt"] []
  = ([], inl (NoSuchMethodError
       "Package Libelf does not support install called with %xl.  Options are: %gcc@4, %gcc")).
Proof. vm_compute. reflexivity. Qed.

Example default_called_when_nothing_matches :
  __call__ install_table [libelf_xl; Str "/opt"] []
  = ([(install_default, [libelf_xl; Str "/opt"], [])], inr (Str "default")).
Proof. vm_compute. reflexivity. Qed.

Lemma call_unique_match_witness :
  __call__ install_table [libelf_gcc; Str "/opt"] [("jobs", Str "4")]
  = ([(install_gcc, [libelf_gcc; Str "/opt"], [("jobs", Str "4")])],
     inr (Str "gcc")).
Proof.
  apply (call_unique_match install_table libelf_gcc [Str "/opt"]
           [("jobs", Str "4")] "%gcc@4.7" "%gcc" install_gcc).
  - reflexivity.
  - reflexivity.
  - reflexivity.
  - intros s' [m Hm] Hsat. rewrite install_table_map in Hm.
    apply lookup_insert_Some in Hm as [[<- _]|[_ Hm]]; [discriminate Hsat|].
    apply lookup_insert_Some in Hm as [[<- _]|[_ Hm]]; [reflexivity|].
    rewrite lookup_empty in Hm. discriminate Hm.
Defined.

Lemma call_no_match_witness :
  __call__ (__init__ None) [libelf_xl; Str "/opt"] []
  = ([], inl (AttributeError
                "'SpecMultiMethod' object has no attribute '__name__'")).
Proof.
  apply (call_no_match (__init__ None) libelf_xl [Str "/opt"] [] "%xl").
  - reflexivity.
  - intros s [m Hm]. simpl in Hm. rewrite lookup_empty in Hm. discriminate Hm.
Defined.

Lemma call_ambiguous_witness :
  ∃ name message,
    __name__ overlapping_table = Some name ∧
    __call__ overlapping_table [libelf_gcc; Str "/opt"] []
    = ([], inl (AmbiguousMethodError message)) ∧
    Includes message (type_name libelf_gcc) ∧ Includes message name ∧
    Includes message (str "%gcc@4.7") ∧
    ∀ s, is_Some (method_map overlapping_table !! s) ->
         satisfies s "%gcc@4.7" = true -> Includes message (str s).
Proof.
  apply (call_ambiguous overlapping_table libelf_gcc [Str "/opt"] []
           "%gcc@4.7" "%gcc" "%gcc@4").
  - apply reachable_register, reachable_register, reachable_init.
  - reflexivity.
  - discriminate.
  - rewrite overlapping_table_map. eexists. reflexivity.
  - reflexivity.
  - rewrite overlapping_table_map. eexists. reflexivity.
  - reflexivity.
Defined.

Lemma register_name_check_witness :
  (register install_table "%xl" generic).2 = Some AssertionError ∧
  ((register (__init__ None) "%xl" generic).2 = None ∧
   __name__ (register (__init__ None) "%xl" generic).1 = Some "generic").
Proof.
  split.
  - apply (proj1 (register_name_check install_table "%xl" generic) "install");
      [reflexivity | discriminate].
  - apply (proj2 (register_name_check (__init__ None) "%xl" generic)).
    reflexivity.
Defined.

Lemma register_replaces_witness :
  method_map (register install_table "%gcc" install_gcc4).1 !! "%gcc"
  = Some install_gcc4 ∧
  (∀ s, s ≠ "%gcc" ->
     method_map (register install_table "%gcc" install_gcc4).1 !! s
     = method_map install_table !! s) ∧
  dom (method_map (register install_table "%gcc" install_gcc4).1)
  = dom (method_map install_table) ∧
  default (register install_table "%gcc" install_gcc4).1
  = default install_table.
Proof.
  apply (register_replaces install_table "%gcc" install_gcc4 install_gcc).
  reflexivity.
Defined.

Lemma bound_call_same_witness :
  call_method [install_table] {["install" := VMulti 0]} libelf_gcc "install"
    [Str "/opt"] []
  = __call__ install_table [libelf_gcc; Str "/opt"] [].
Proof.
  apply (bound_call_same [install_table] {["install" := VMulti 0]} libelf_gcc
           "install" 0 install_table [Str "/opt"] []); reflexivity.
Defined.

(** The class body of the docstring of [when], and a default that comes
    last. *)
Definition libelf_body : list Stmt :=
  [Def install_default; DefWhen "%gcc" install_gcc; DefWhen "=bgq" install_bgq].

Definition install_late : Method :=
  mkMethod "install" (fun _ _ => inr (Str "late")).

Lemma later_def_replaces_table_witness :
  ∃ locals2,
    exec_body "Libelf" (libelf_body ++ [Def install_late]) ∅ []
    = ([install_table], inr locals2) ∧
    locals2 !! fn_name install_late = Some (VFunc install_late) ∧
    (∀ r', locals2 !! fn_name install_late ≠ Some (VMulti r')) ∧
    ∀ obj args kwargs,
      call_method [install_table] locals2 obj (fn_name install_late) args kwargs
      = ([(install_late, obj :: args, kwargs)],
         fn_code install_late (obj :: args) kwargs).
Proof.
  apply (later_def_replaces_table "Libelf" libelf_body install_late ∅
           {["install" := VMulti 0]} [] [install_table] 0).
  - vm_compute. reflexivity.
  - reflexivity.
Defined.

Lemma when_call_new_table_witness :
  when_call (mkWhen "%gcc") install_gcc {["install" := VFunc install_default]} []
  = ([ {| method_map := {[ "%gcc" := install_gcc ]};
          default := Some install_default;
          __name__ := Some "install" |} ], inr 0).
Proof.
  refine (proj1 (when_call_new_table (mkWhen "%gcc") install_gcc
                   {["install" := VFunc install_default]} [] _ _)).
  - intros r. discriminate.
  - intros f Hf. injection Hf as <-. reflexivity.
Defined.

(** C4 as stated fails here: [install] is bound to a function whose own
    name is [generic], which is not a dispatch table; the decorator creates
    the table and registers the pair, then raises instead of returning the
    table. *)
Lemma when_call_renamed_prior_raises :
  (∀ r, ({["install" := VFunc generic]} : gmap string (@Value PyObj))
          !! fn_name install_gcc ≠ Some (VMulti r)) ∧
  (when_call (mkWhen "%gcc") install_gcc {["install" := VFunc generic]} []).2
  = inl AssertionError ∧
  ¬ ∃ h' table,
      when_call (mkWhen "%gcc") install_gcc {["install" := VFunc generic]} []
      = (h', inr table).
Proof.
  split; [intros r; discriminate|].
  split; [reflexivity|].
  intros (h' & table & Hcall).
  apply (f_equal snd) in Hcall. discriminate Hcall.
Qed.

Definition install_only_gcc : @SpecMultiMethod string _ _ PyObj :=
  (register (__init__ (Some install_default)) "%gcc" install_gcc).1.

Definition setup_table : @SpecMultiMethod string _ _ PyObj :=
  (register (__init__ None) "%gcc" setup_gcc).1.

Lemma when_call_existing_table_witness :
  ∃ h' table',
    when_call (mkWhen "=bgq") install_bgq {["install" := VMulti 0]}
      [install_only_gcc] = (h', inr 0) ∧
    length h' = length [install_only_gcc] ∧
    h' !! 0 = Some table' ∧
    (∀ r', r' ≠ 0 -> h' !! r' = [install_only_gcc] !! r') ∧
    default table' = default install_only_gcc ∧
    method_map table' = <["=bgq" := install_bgq]> (method_map install_only_gcc) ∧
    method_map table' !! "=bgq" = Some install_bgq ∧
    (∀ s, s ≠ "=bgq" ->
       method_map table' !! s = method_map install_only_gcc !! s).
Proof.
  apply (when_call_existing_table (mkWhen "=bgq") install_bgq
           {["install" := VMulti 0]} [install_only_gcc] 0 install_only_gcc).
  - reflexivity.
  - reflexivity.
  - intros name Hname. injection Hname as <-. reflexivity.
Defined.

(** C10 as stated fails here: [install] is bound to the dispatch table of
    [setup]; the decorator writes the new entry into that table, then
    raises instead of returning it. *)
Lemma when_call_renamed_table_raises :
  ({["install" := VMulti 0]} : gmap string (@Value PyObj)) !! fn_name install_bgq
  = Some (VMulti 0 : @Value PyObj) ∧
  [setup_table] !! 0 = Some setup_table ∧
  (when_call (mkWhen "=bgq") install_bgq {["install" := VMulti 0]}
     [setup_table]).2 = inl AssertionError ∧
  ¬ ∃ h' table,
      when_call (mkWhen "=bgq") install_bgq {["install" := VMulti 0]}
        [setup_table] = (h', inr table).
Proof.
  split; [reflexivity|]. split; [reflexivity|]. split; [reflexivity|].
  intros (h' & table & Hcall).
  apply (f_equal snd) in Hcall. discriminate Hcall.
Qed.

(** ** The further properties on the package of the scenario *)

Lemma install_table_reachable : reachable install_table.
Proof. apply reachable_register, reachable_register, reachable_init. Qed.

Lemma reachable_unnamed_iff_empty_witness :
  __name__ install_table = None
  ↔ default install_table = None ∧ method_map install_table = ∅.
Proof.
  apply (reachable_unnamed_iff_empty install_table).
  apply install_table_reachable.
Defined.

Lemma call_outcomes_when_populated_witness :
  (∃ method,
     __call__ install_table [libelf_gcc; Str "/opt"] []
     = ([(method, [libelf_gcc; Str "/opt"], [])],
        fn_code method [libelf_gcc; Str "/opt"] [])) ∨
  (∃ message,
     __call__ install_table [libelf_gcc; Str "/opt"] []
     = ([], inl (NoSuchMethodError message))) ∨
  (∃ message,
     __call__ install_table [libelf_gcc; Str "/opt"] []
     = ([], inl (AmbiguousMethodError message))).
Proof.
  apply (call_outcomes_when_populated install_table libelf_gcc [Str "/opt"] []
           "%gcc@4.7").
  - apply install_table_reachable.
  - reflexivity.
  - left. discriminate.
Defined.

Lemma register_failed_still_written_witness :
  (AssertionError : @Exn PyObj) = AssertionError ∧
  method_map (register install_table "%xl" generic).1 !! "%xl" = Some generic ∧
  ∃ name, __name__ install_table = Some name ∧ name ≠ fn_name generic ∧
          __name__ (register install_table "%xl" generic).1 = Some name.
Proof.
  apply (register_failed_still_written install_table "%xl" generic
           AssertionError).
  reflexivity.
Defined.

Lemma register_keeps_identity_witness :
  __name__ (register install_table "%xl" generic).1 = Some "install" ∧
  default (register install_table "%xl" generic).1 = default install_table ∧
  ∀ s, s ≠ "%xl" ->
       method_map (register install_table "%xl" generic).1 !! s
       = method_map install_table !! s.
Proof.
  apply (register_keeps_identity install_table "%xl" generic "install").
  reflexivity.
Defined.

Lemma register_new_key_witness :
  method_map (register install_table "%xl" install_gcc4).1 !! "%xl"
  = Some install_gcc4 ∧
  dom (method_map (register install_table "%xl" install_gcc4).1)
  = {["%xl"]} ∪ dom (method_map install_table) ∧
  size (method_map (register install_table "%xl" install_gcc4).1)
  = S (size (method_map install_table)).
Proof.
  apply (register_new_key install_table "%xl" install_gcc4).
  reflexivity.
Defined.

Lemma register_commutes_witness :
  (register (register install_table "%xl" install_gcc4).1 "%clang" install_gcc).1
  = (register (register install_table "%clang" install_gcc).1 "%xl" install_gcc4).1.
Proof.
  apply (register_commutes install_table "%xl" "%clang" install_gcc4 install_gcc).
  - discriminate.
  - reflexivity.
Defined.

Lemma built_names_agree_witness :
  (∀ d, default install_table = Some d -> fn_name d = "install") ∧
  (∀ s method, method_map install_table !! s = Some method ->
               fn_name method = "install").
Proof.
  apply (built_names_agree install_table "install").
  - apply built_register; [apply built_register; [apply built_init|]|];
      reflexivity.
  - reflexivity.
Defined.

Lemma when_call_returns_named_witness :
  ∃ table,
    [install_only_gcc] !! 0 = Some table ∧
    __name__ table = Some (fn_name install_gcc) ∧
    method_map table !! spec (mkWhen "%gcc") = Some install_gcc.
Proof.
  apply (when_call_returns_named (mkWhen "%gcc") install_gcc
           {["install" := VFunc install_default]} [] [install_only_gcc] 0).
  vm_compute. reflexivity.
Defined.

Lemma when_call_frame_witness :
  (when_call (mkWhen "%gcc") install_gcc
     {["install" := VFunc install_default]} [setup_table]).1 !! 0
  = Some setup_table ∧
  length [setup_table]
  <= length (when_call (mkWhen "%gcc") install_gcc
               {["install" := VFunc install_default]} [setup_table]).1.
Proof.
  apply (when_call_frame (mkWhen "%gcc") install_gcc
           {["install" := VFunc install_default]} [setup_table] 0 setup_table).
  - reflexivity.
  - discriminate.
Defined.


Definition libelf_variants : list (string * @Method PyObj) :=
  [("%gcc", install_gcc); ("=bgq", install_bgq)].

Lemma libelf_variants_named :
  Forall (fun v => fn_name v.2 = fn_name install_default) libelf_variants.
Proof. repeat constructor. Qed.

Lemma default_first_runs_default_witness :
  ∃ table,
    exec_body "Libelf" (Def install_default :: variant_stmts libelf_variants) ∅ []
    = ([table], inr {["install" := VMulti 0]}) ∧
    default table = Some install_default ∧
    ∀ obj args kwargs descriptor,
      spec_attr obj = Some descriptor ->
      (∀ v', In v' libelf_variants ->
             satisfies (constraint_of "Libelf" v') descriptor = false) ->
      call_method [table] {["install" := VMulti 0]} obj "install" args kwargs
      = ([(install_default, obj :: args, kwargs)],
         fn_code install_default (obj :: args) kwargs).
Proof.
  exact (default_first_runs_default "Libelf" install_default
           ("%gcc", install_gcc) [("=bgq", install_bgq)] ∅ []
           libelf_variants_named).
Defined.

Lemma default_first_runs_variant_witness :
  ∃ h' locals',
    exec_body "Libelf" (Def install_default :: variant_stmts libelf_variants) ∅ []
    = (h', inr locals') ∧
    call_method h' locals' libelf_gcc (fn_name install_default) [Str "/opt"] []
    = ([(install_gcc, [libelf_gcc; Str "/opt"], [])],
       fn_code install_gcc [libelf_gcc; Str "/opt"] []).
Proof.
  apply (default_first_runs_variant "Libelf" install_default
           ("%gcc", install_gcc) [("=bgq", install_bgq)] ∅ []
           ("%gcc", install_gcc) libelf_gcc [Str "/opt"] [] "%gcc@4.7").
  - apply libelf_variants_named.
  - constructor; [|constructor; [|constructor]]; simpl.
    + intros [Heq|[]]. discriminate Heq.
    + intros [].
  - left. reflexivity.
  - reflexivity.
  - reflexivity.
  - intros v' [<-|[<-|[]]] Hne; [by destruct Hne|reflexivity].
Defined.

Lemma register_keeps_ambiguity_witness :
  ∃ message,
    __call__ (register overlapping_table "=bgq" install_bgq).1
      [libelf_gcc; Str "/opt"] []
    = ([], inl (AmbiguousMethodError message)).
Proof.
  apply (register_keeps_ambiguity overlapping_table "=bgq" install_bgq
           libelf_gcc [Str "/opt"] [] "%gcc@4.7" "%gcc" "%gcc@4").
  - reflexivity.
  - discriminate.
  - rewrite overlapping_table_map. eexists. reflexivity.
  - reflexivity.
  - rewrite overlapping_table_map. eexists. reflexivity.
  - reflexivity.
Defined.

Lemma register_then_call_witness :
  (register install_table "%xl" generic).2 = Some AssertionError ∧
  __call__ (register install_table "%xl" generic).1 [libelf_xl; Str "/opt"] []
  = ([(generic, [libelf_xl; Str "/opt"], [])],
     fn_code generic [libelf_xl; Str "/opt"] []).
Proof.
  split; [reflexivity|].
  apply (register_then_call install_table "%xl" generic libelf_xl
           [Str "/opt"] [] "%xl").
  - reflexivity.
  - reflexivity.
  - intros s Hne [m Hm]. rewrite install_table_map in Hm.
    apply lookup_insert_Some in Hm as [[<- _]|[_ Hm]]; [reflexivity|].
    apply lookup_insert_Some in Hm as [[<- _]|[_ Hm]]; [reflexivity|].
    rewrite lookup_empty in Hm. discriminate Hm.
Defined.

Lemma ambiguous_message_lists_matches_witness :
  ∃ name listed,
    __name__ overlapping_table = Some name ∧
    __call__ overlapping_table [libelf_gcc; Str "/opt"] []
    = ([], inl (AmbiguousMethodError
                  ("Package " +:+ type_name libelf_gcc
                     +:+ " has multiple versions of " +:+ name
                     +:+ " that match " +:+ str "%gcc@4.7" +:+ ": "
                     +:+ join "," (map str listed)))) ∧
    NoDup listed ∧
    ∀ s, In s listed
         ↔ is_Some (method_map overlapping_table !! s)
           ∧ satisfies s "%gcc@4.7" = true.
Proof.
  apply (ambiguous_message_lists_matches overlapping_table libelf_gcc
           [Str "/opt"] [] "%gcc@4.7" "%gcc" "%gcc@4").
  - apply reachable_register, reachable_register, reachable_init.
  - reflexivity.
  - discriminate.
  - rewrite overlapping_table_map. eexists. reflexivity.
  - reflexivity.
  - rewrite overlapping_table_map. eexists. reflexivity.
  - reflexivity.
Defined.

Lemma no_such_method_message_lists_keys_witness :
  ∃ listed,
    __call__ overlapping_table [libelf_xl; Str "/opt"] []
    = ([], inl (NoSuchMethodError
                  ("Package " +:+ type_name libelf_xl
                     +:+ " does not support " +:+ "install"
                     +:+ " called with " +:+ str "%xl"
                     +:+ ".  Options are: "
                     +:+ join ", " (map str listed)))) ∧
    NoDup listed ∧
    ∀ s, In s listed ↔ is_Some (method_map overlapping_table !! s).
Proof.
  apply (no_such_method_message_lists_keys overlapping_table libelf_xl
           [Str "/opt"] [] "%xl" "install").
  - reflexivity.
  - reflexivity.
  - reflexivity.
  - intros s [m Hm]. rewrite overlapping_table_map in Hm.
    apply lookup_insert_Some in Hm as [[<- _]|[_ Hm]]; [reflexivity|].
    apply lookup_insert_Some in Hm as [[<- _]|[_ Hm]]; [reflexivity|].
    rewrite lookup_empty in Hm. discriminate Hm.
Defined.

End Multimethod.
